(** * Word bingo: normalizer, card generator, win detector and toggle

    A shallow embedding of the core of the bingo application: [S], [isArr],
    [shuffle], [normalizeWords], [normalizeConfig], [generateCard],
    [countCompletedLines], the [toggle] of [Card] and the display order of
    [PlayerPage], and the properties its specification states about them.
    The sources hold several revisions of the application; the functions
    are those of the last one, the one that has [normalizeConfig].

    Conventions of the embedding.
    - A JavaScript value that a decoded JSON document can hold is a [value].
      An object lists its own properties in the order [Object.keys] reports
      them.
    - A string is a [string] of UTF-8 bytes.
    - A number is an IEEE 754 value ([spec_float]).  The two conversions of
      the language runtime between numbers and strings are not part of the
      application; they are the fields of the class [Runtime].
    - A computation that can throw returns a [Res]. *)

From Stdlib Require Import Ascii String Floats.SpecFloat.
From stdpp Require Import base option list strings pretty gmap.

Set Warnings "-register-all".

Local Open Scope string_scope.
Local Open Scope list_scope.
Local Open Scope nat_scope.
Local Open Scope stdpp_scope.

(** ** Exceptions *)

Inductive exn : Type :=
  | TypeError
  | Error (message : string).

Inductive Res (A : Type) : Type :=
  | Ok (a : A)
  | Throw (e : exn).
Arguments Ok {A} a.
Arguments Throw {A} e.

#[global] Instance Res_ret : MRet Res := λ A a, Ok a.
#[global] Instance Res_bind : MBind Res := λ A B f m,
  match m with Ok a => f a | Throw e => Throw e end.
#[global] Instance Res_fmap : FMap Res := λ A B f m,
  match m with Ok a => Ok (f a) | Throw e => Throw e end.

(** [xs.map(f)] for an [f] that can throw: the elements are visited from
    the left and the first exception ends the traversal. *)
Fixpoint mapR {A B} (f : A → Res B) (xs : list A) : Res (list B) :=
  match xs with
  | [] => Ok []
  | x :: xs' => y ← f x; ys ← mapR f xs'; Ok (y :: ys)
  end.

(** A [for] loop over [xs] that updates the variables [b] and can throw. *)
Fixpoint foldR {A B} (f : B → A → Res B) (b : B) (xs : list A) : Res B :=
  match xs with
  | [] => Ok b
  | x :: xs' => b' ← f b x; foldR f b' xs'
  end.

(** ** Values *)

Definition number : Type := spec_float.

Definition NaN : number := S754_nan.
Definition number_of_nat (n : nat) : number :=
  match n with
  | O => S754_zero false
  | S _ => S754_finite false (Pos.of_nat n) 0
  end.

Inductive value : Type :=
  | VUndefined
  | VNull
  | VBool (b : bool)
  | VNum (n : number)
  | VStr (s : string)
  | VArr (elements : list value)
  | VObj (properties : list (string * value)).

(** [ToBoolean]. *)
Definition truthy_number (n : number) : bool :=
  match n with
  | S754_zero _ | S754_nan => false
  | _ => true
  end.

Definition truthy_string (s : string) : bool :=
  negb (bool_decide (s = "")).

Definition truthy (v : value) : bool :=
  match v with
  | VUndefined | VNull => false
  | VBool b => b
  | VNum n => truthy_number n
  | VStr s => truthy_string s
  | VArr _ | VObj _ => true
  end.

(** The first binding of [k] in an association list. *)
Fixpoint assoc {A} (k : string) (ps : list (string * A)) : option A :=
  match ps with
  | [] => None
  | (k', a) :: ps' => if decide (k = k') then Some a else assoc k ps'
  end.

(** [Object.keys(v)] of an object or an array. *)
Definition Object_keys (v : value) : list string :=
  match v with
  | VObj ps => map fst ps
  | VArr xs => map pretty (seq 0 (length xs))
  | _ => []
  end.

(** The element of an array that the property name [k] indexes. *)
Definition at_index {A} (k : string) (xs : list A) : option A :=
  i ← find (λ i, bool_decide (pretty i = k)) (seq 0 (length xs)); xs !! i.

(** [v?.k] and [v[k]] for the property names the application reads: [cats],
    [ord], [size] and [lines] of the decoded document, and the keys that
    [Object.keys] reported.  No prototype and no exotic object supplies one
    of the four names, so a read finds an own property or [undefined]. *)
Definition get (v : value) (k : string) : value :=
  match v with
  | VObj ps => default VUndefined (assoc k ps)
  | VArr xs => default VUndefined (at_index k xs)
  | _ => VUndefined
  end.

(** [typeof v === "object"] *)
Definition typeof_object (v : value) : bool :=
  match v with VNull | VArr _ | VObj _ => true | _ => false end.

(** ** The runtime's number conversions *)

Class Runtime : Type := {
  (** [Number::toString]: the decimal text of a number *)
  NumberToString : number → string;
  (** [StringToNumber]: the number a string denotes, [NaN] if none *)
  StringToNumber : string → number;
}.

(** ** Strings: [trim] *)

(** The string of the bytes [codes]. *)
Definition utf8 (codes : list nat) : string :=
  string_of_list_ascii (map ascii_of_nat codes).

(** The UTF-8 encodings of the code points [String.prototype.trim] strips:
    WhiteSpace (TAB, VT, FF, SP, NBSP, ZWNBSP and the category Zs) and
    LineTerminator (LF, CR, LS, PS). *)
Definition whitespace : list (list ascii) :=
  map (map ascii_of_nat)
    ([ [9]; [10]; [11]; [12]; [13]; [32];
       [194; 160]; [225; 154; 128] ]
     ++ map (λ b, [226; 128; b]) (seq 128 11)
     ++ [ [226; 128; 168]; [226; 128; 169]; [226; 128; 175];
          [226; 129; 159]; [227; 128; 128]; [239; 187; 191] ]).

(** [strip p s]: [s] without its prefix [p], if [p] is one. *)
Fixpoint strip (p s : list ascii) : option (list ascii) :=
  match p, s with
  | [], _ => Some s
  | a :: p', b :: s' => if decide (a = b) then strip p' s' else None
  | _ :: _, [] => None
  end.

Fixpoint strip_any (ps : list (list ascii)) (s : list ascii)
    : option (list ascii) :=
  match ps with
  | [] => None
  | p :: ps' =>
      match strip p s with
      | Some s' => Some s'
      | None => strip_any ps' s
      end
  end.

(** Remove leading members of [ps] until none is left; [fuel] bounds the
    number of removals, and the length of the string is enough. *)
Fixpoint strip_all (ps : list (list ascii)) (fuel : nat) (s : list ascii)
    : list ascii :=
  match fuel with
  | O => s
  | S fuel' =>
      match strip_any ps s with
      | Some s' => strip_all ps fuel' s'
      | None => s
      end
  end.

Definition trimStart (s : list ascii) : list ascii :=
  strip_all whitespace (length s) s.

Definition trimEnd (s : list ascii) : list ascii :=
  rev (strip_all (map (@rev ascii) whitespace) (length s) (rev s)).

(** [s.trim()] *)
Definition trim (s : string) : string :=
  string_of_list_ascii (trimEnd (trimStart (list_ascii_of_string s))).

(** ** Constants *)

Definition SIZE : nat := 4.
Definition REQUIRED_LINES : nat := 3.

(** ** The category mapping

    [type Cats = Record<string, string[]>], built by assignments from [{}].
    The object has its own properties, in the order of their creation, and
    a prototype: [Object.prototype], unless an assignment to [__proto__]
    has replaced it by the array assigned. *)
Record Cats : Type := {
  own : list (string * list string);
  proto : option (list string)
}.

(** [{}] *)
Definition empty_cats : Cats := {| own := []; proto := None |}.

(** Replace the first binding of [k], or add one at the end. *)
Fixpoint assoc_set {A} (k : string) (a : A) (ps : list (string * A))
    : list (string * A) :=
  match ps with
  | [] => [(k, a)]
  | (k', a') :: ps' =>
      if decide (k = k') then (k, a) :: ps' else (k', a') :: assoc_set k a ps'
  end.

(** [cats[k] = ws].  The name [__proto__] is the inherited accessor, whose
    setter installs the array [ws] as the prototype and creates no
    property. *)
Definition cats_set (k : string) (ws : list string) (c : Cats) : Cats :=
  if decide (k = "__proto__")
  then {| own := own c; proto := Some ws |}
  else {| own := assoc_set k ws (own c); proto := proto c |}.

(** [Object.keys(cats)] *)
Definition keys (c : Cats) : list string := map fst (own c).

(** The string-named properties of [Object.prototype], and those that
    [Array.prototype] adds to them (ECMAScript 2023).  Each holds a function
    or an object; [Array.prototype.length] is left out, an array having a
    length of its own. *)
Definition ObjectPrototype : list string :=
  [ "constructor"; "__defineGetter__"; "__defineSetter__"; "hasOwnProperty";
    "__lookupGetter__"; "__lookupSetter__"; "isPrototypeOf";
    "propertyIsEnumerable"; "toString"; "valueOf"; "__proto__";
    "toLocaleString" ].

Definition ArrayPrototype : list string :=
  [ "at"; "concat"; "copyWithin"; "entries"; "every"; "fill"; "filter";
    "find"; "findIndex"; "findLast"; "findLastIndex"; "flat"; "flatMap";
    "forEach"; "includes"; "indexOf"; "join"; "keys"; "lastIndexOf"; "map";
    "pop"; "push"; "reduce"; "reduceRight"; "reverse"; "shift"; "slice";
    "some"; "sort"; "splice"; "toReversed"; "toSorted"; "toSpliced";
    "unshift"; "values"; "with" ].

(** What a read [cats[n]] finds. *)
Inductive property : Type :=
  | PWords (ws : list string)   (* an own property: a category *)
  | PWord (w : string)          (* an element of the prototype array *)
  | PLength (n : nat)           (* the length of the prototype array *)
  | PBuiltin                    (* a function or object of a prototype *)
  | PUndefined.

Definition inherited (names : list string) (n : string) : property :=
  if bool_decide (n ∈ names) then PBuiltin else PUndefined.

(** [cats[n]]: own properties first, then the prototype chain. *)
Definition cats_get (c : Cats) (n : string) : property :=
  match assoc n (own c) with
  | Some ws => PWords ws
  | None =>
      match proto c with
      | None => inherited ObjectPrototype n
      | Some ws =>
          match at_index n ws with
          | Some w => PWord w
          | None =>
              if decide (n = "length") then PLength (length ws)
              else inherited (ArrayPrototype ++ ObjectPrototype) n
          end
      end
  end.

Definition truthy_property (p : property) : bool :=
  match p with
  | PWords _ | PBuiltin => true
  | PWord w => truthy_string w
  | PLength n => negb (n =? 0)%nat
  | PUndefined => false
  end.

(** [type Config = { cats: Cats; size: number; lines: number; ord?: string[] }] *)
Module Config.
Record t : Type := make {
  cats : Cats;
  size : number;
  lines : number;
  ord : list string
}.
End Config.

(** The display order of [PlayerPage]:
    [(data.ord && data.ord.length ? data.ord : Object.keys(cats))
       .filter((n) => !!cats[n])] *)
Definition displayOrder (data : Config.t) : list string :=
  let cats := Config.cats data in
  filter (λ n, truthy_property (cats_get cats n))
    (if negb (length (Config.ord data) =? 0)%nat
     then Config.ord data else keys cats).

(** ** The random source

    The draws still to come.  [Math.floor(Math.random() * n)] consumes one
    draw and yields an index below [n]: whichever the source chooses, and
    every index below [n] is the choice of some source. *)
Definition rng : Type := nat → nat.

Definition random_below (n : nat) (g : rng) : nat * rng :=
  (g 0 `mod` n, λ k, g (Datatypes.S k)).

(** ** [shuffle] on the contents of the array *)

(** [[a[i], a[j]] = [a[j], a[i]]] for indices of the array (the loop of
    [shuffle] produces no others). *)
Definition swap {T} (i j : nat) (a : list T) : list T :=
  match a !! i, a !! j with
  | Some ai, Some aj => <[j := ai]> (<[i := aj]> a)
  | _, _ => a
  end.

(** [for (let i = ...; i > 0; i--) { const j = ...; swap }] *)
Fixpoint shuffle_loop {T} (i : nat) (a : list T) (g : rng) : list T * rng :=
  match i with
  | O => (a, g)
  | Datatypes.S i' =>
      let '(j, g') := random_below (i + 1) g in
      shuffle_loop i' (swap i j a) g'
  end.

(** [function shuffle<T>(arr: T[]): T[]], as a function of the contents of
    [arr]: the loop runs on the copy [[...arr]]. *)
Definition shuffle {T} (arr : list T) (g : rng) : list T * rng :=
  shuffle_loop (length arr - 1) arr g.

(** ** [shuffle] on arrays in the store

    Arrays are objects: a variable holds a reference, and an assignment to
    an element changes the array for every holder of the reference. *)
Module Heap.
Definition loc : Type := positive.
Abbreviation heap T := (gmap loc (list T)).

(** [[a[i], a[j]] = [a[j], a[i]]] *)
Definition swap {T} (a : loc) (i j : nat) (h : heap T) : heap T :=
  match h !! a with
  | Some xs =>
      match xs !! i, xs !! j with
      | Some ai, Some aj => <[a := <[j := ai]> (<[i := aj]> xs)]> h
      | _, _ => h
      end
  | None => h
  end.

Fixpoint shuffle_loop {T} (a : loc) (i : nat) (h : heap T) (g : rng)
    : heap T * rng :=
  match i with
  | O => (h, g)
  | Datatypes.S i' =>
      let '(j, g') := random_below (i + 1) g in
      shuffle_loop a i' (swap a i j h) g'
  end.

(** [shuffle(arr)]: [const a = [...arr]] allocates a new array with the
    elements of [arr]; the loop works on [a], which is returned. *)
Definition shuffle {T} (arr : loc) (h : heap T) (g : rng)
    : option (loc * heap T * rng) :=
  xs ← h !! arr;
  let a := fresh (dom h) in
  let '(h', g') := shuffle_loop a (length xs - 1) (<[a := xs]> h) g in
  Some (a, h', g').
End Heap.

(** ** Win detector and toggle *)

(** [marked[r]], whose use throws when there is no such row. *)
Definition row_of (marked : list (list bool)) (r : nat) : Res (list bool) :=
  match marked !! r with
  | Some row => Ok row
  | None => Throw TypeError
  end.

(** [row[c]] as a condition: [undefined] is falsy. *)
Definition cell_of (row : list bool) (c : nat) : bool :=
  default false (row !! c).

(** [function countCompletedLines(marked: boolean[][]): number] *)
Definition countCompletedLines (marked : list (list bool)) : Res nat :=
  lines ← foldR (λ (lines r : nat),
      row ← row_of marked r;
      Ok (if forallb id row then lines + 1 else lines))
    0 (seq 0 SIZE);
  lines ← foldR (λ (lines c : nat),
      ok ← foldR (λ (ok : bool) (r : nat),
          row ← row_of marked r;
          Ok (if negb (cell_of row c) then false else ok))
        true (seq 0 SIZE);
      Ok (if ok : bool then lines + 1 else lines))
    lines (seq 0 SIZE);
  '(d1, d2) ← foldR (λ '((d1, d2) : bool * bool) (i : nat),
      row ← row_of marked i;
      let d1 := if negb (cell_of row i) then false else d1 in
      row ← row_of marked i;
      let d2 := if negb (cell_of row (SIZE - 1 - i)) then false else d2 in
      Ok (d1, d2))
    (true, true) (seq 0 SIZE);
  let lines := if d1 : bool then lines + 1 else lines in
  let lines := if d2 : bool then lines + 1 else lines in
  Ok lines.

(** [const bingo = lines >= REQUIRED_LINES] *)
Definition bingo (lines : nat) : bool := bool_decide (REQUIRED_LINES ≤ lines).

(** The update of [toggle(r, c)]:
    [cur.map((row, ri) => row.map((m, ci) => (ri === r && ci === c ? !m : m)))] *)
Definition toggle (r c : nat) (cur : list (list bool)) : list (list bool) :=
  imap (λ ri row,
    imap (λ ci m, if bool_decide (ri = r) && bool_decide (ci = c)
                  then negb m else m) row) cur.

(** ** String coercion *)

Definition has_own (k : string) (ps : list (string * value)) : bool :=
  bool_decide (is_Some (assoc k ps)).

Section runtime.
Context {rt : Runtime}.

(** [String(v)], that is [ToString].  An array joins its elements with a
    comma, [null] and [undefined] elements contributing nothing.  An
    ordinary object answers ["[object Object]"] through the inherited
    [toString]; a decoded object that has an own property [toString]
    (never callable) is left without a usable conversion method, and the
    coercion throws a [TypeError]. *)
Fixpoint ToString (v : value) : Res string :=
  match v with
  | VUndefined => Ok "undefined"
  | VNull => Ok "null"
  | VBool b => Ok (if b then "true" else "false")
  | VNum n => Ok (NumberToString n)
  | VStr s => Ok s
  | VArr xs =>
      (fix join (xs : list value) : Res string :=
         match xs with
         | [] => Ok ""
         | x :: xs' =>
             s ← match x with
                 | VUndefined | VNull => Ok ""
                 | _ => ToString x
                 end;
             match xs' with
             | [] => Ok s
             | _ :: _ => t ← join xs'; Ok (s +:+ "," +:+ t)
             end
         end) xs
  | VObj ps =>
      if has_own "toString" ps then Throw TypeError
      else Ok "[object Object]"
  end.

(** [const S = (v: any) => String(v ?? "")] *)
Definition S (v : value) : Res string :=
  ToString (match v with VUndefined | VNull => VStr "" | _ => v end).

(** [const isArr = (v: any): v is any[] => Array.isArray(v)] *)
Definition isArr (v : value) : bool :=
  match v with VArr _ => true | _ => false end.

(** [Number(v)], that is [ToNumber].  An object goes through its string
    conversion (the inherited [valueOf] returns the object itself). *)
Definition ToNumber (v : value) : Res number :=
  match v with
  | VUndefined => Ok NaN
  | VNull => Ok (S754_zero false)
  | VBool b => Ok (number_of_nat (if b then 1 else 0))
  | VNum n => Ok n
  | VStr s => Ok (StringToNumber s)
  | VArr _ => s ← ToString v; Ok (StringToNumber s)
  | VObj ps => if has_own "toString" ps then Throw TypeError else Ok NaN
  end.

(** ** Normalizer *)

(** [function normalizeWords(raw: any): string[]] *)
Definition normalizeWords (raw : value) : Res (list string) :=
  match raw with
  | VArr xs =>
      strs ← mapR S xs;
      Ok (filter (λ s, truthy_string s) (map trim strs))
  | _ => Ok []
  end.

(** [function normalizeConfig(json: any): Config] *)
Definition normalizeConfig (json : value) : Res Config.t :=
  let rawCats :=
    if truthy (get json "cats") && typeof_object (get json "cats")
    then get json "cats" else VObj [] in
  cats ← foldR (λ cats k,
      k' ← S (VStr k);
      ws ← normalizeWords (get rawCats k);
      Ok (cats_set k' ws cats))
    empty_cats (Object_keys rawCats);
  ord ← (if isArr (get json "ord") then normalizeWords (get json "ord")
         else Ok (keys cats));
  size ← (n ← ToNumber (get json "size");
          Ok (if truthy_number n then n else number_of_nat SIZE));
  lines ← (n ← ToNumber (get json "lines");
           Ok (if truthy_number n then n else number_of_nat REQUIRED_LINES));
  Ok (Config.make cats size lines ord).

(** ** Card generator *)

(** The message of the error of [generateCard]. *)
Definition insufficient (needed provided : nat) : string :=
  "단어 풀이 부족합니다. (필요: " +:+ pretty needed +:+ ", 제공: "
    +:+ pretty provided +:+ ")".

(** [function generateCard(wordsInput: any): string[][]] *)
Definition generateCard (wordsInput : value) (g : rng)
    : Res (list (list string) * rng) :=
  words ← normalizeWords wordsInput;
  let needed := SIZE * SIZE in
  if bool_decide (length words < needed)%nat
  then Throw (Error (insufficient needed (length words)))
  else
    let '(shuffled, g') := shuffle words g in
    let picks := take needed shuffled in
    '(grid, _) ← foldR (λ '((grid, idx) : list (list string) * nat) (r : nat),
        '(row, idx) ← foldR (λ '((row, idx) : list string * nat) (c : nat),
            w ← S (from_option VStr VUndefined (picks !! idx));
            Ok (row ++ [w], idx + 1))
          ([], idx) (seq 0 SIZE);
        Ok (grid ++ [row], idx))
      ([], 0) (seq 0 SIZE);
    Ok (grid, g').

End runtime.

(** ** A runtime for the examples

    On the integers the conversions of the runtime are the decimal
    notation, an optional minus sign and digits, and [decimal_runtime] is
    right on them; on the other numbers and numerals it is not meant to be
    (it answers NaN).  The theorems hold for every runtime, and the
    examples convert integers only. *)
Definition integer_of_number (n : number) : option Z :=
  match n with
  | S754_zero _ => Some 0%Z
  | S754_finite s m (Z0 as e) | S754_finite s m (Zpos _ as e) =>
      Some ((if s then -1 else 1) * Zpos m * 2 ^ e)%Z
  | _ => None
  end.

Definition number_of_Z (z : Z) : number :=
  match z with
  | Z0 => S754_zero false
  | Zpos p => S754_finite false p 0
  | Zneg p => S754_finite true p 0
  end.

Definition is_digit (a : ascii) : bool :=
  bool_decide (48 ≤ nat_of_ascii a ≤ 57)%nat.

Fixpoint digits_value (acc : Z) (s : list ascii) : option Z :=
  match s with
  | [] => Some acc
  | a :: s' =>
      if is_digit a
      then digits_value (10 * acc + Z.of_nat (nat_of_ascii a - 48)) s'
      else None
  end.

Definition decimal_runtime : Runtime := {|
  NumberToString n :=
    match integer_of_number n with
    | Some z => pretty z
    | None => "NaN"
    end;
  StringToNumber s :=
    let cs := list_ascii_of_string (trim s) in
    match cs with
    | [] => S754_zero false
    | a :: ds =>
        if decide (a = "-"%char)
        then match ds with
             | [] => NaN
             | _ :: _ =>
                 from_option (λ z, number_of_Z (- z)) NaN (digits_value 0 ds)
             end
        else from_option number_of_Z NaN (digits_value 0 cs)
    end
|}.

(** ** The specification's words

    The definitions of this part are written from the specification, to be
    compared with the functions above. *)

(** An entry of a WordList: a non-empty trimmed string. *)
Definition is_word (s : string) : Prop := s ≠ "" ∧ trim s = s.

Section specification.
Context {rt : Runtime}.

(** The string representation of a list element: a null or absent element
    becomes the empty string. *)
Definition coerce (x : value) : Res string :=
  match x with
  | VUndefined | VNull => Ok ""
  | _ => ToString x
  end.

(** Element by element, in order: coerce, trim, and drop the element if
    nothing is left of it. *)
Fixpoint keep_words (xs : list value) : Res (list string) :=
  match xs with
  | [] => Ok []
  | x :: xs' =>
      s ← coerce x;
      ws ← keep_words xs';
      Ok (if decide (trim s = "") then ws else trim s :: ws)
  end.

(** The word-list rule: a non-list input is the empty WordList. *)
Definition normalizeWords_spec (raw : value) : Res (list string) :=
  match raw with
  | VArr xs => keep_words xs
  | _ => Ok []
  end.

(** The display order as the specification words it: a list [ord] is
    normalized and the names absent from the mapping are filtered out;
    otherwise the key sequence of the mapping. *)
Definition displayOrder_spec (json : value) (cats : Cats) : Res (list string) :=
  if isArr (get json "ord")
  then ws ← normalizeWords (get json "ord");
       Ok (filter (λ n, n ∈ keys cats) ws)
  else Ok (keys cats).

(** The same, but a list [ord] that normalizes to the empty list also
    gives the key sequence of the mapping. *)
Definition displayOrder_amended (json : value) (cats : Cats) : Res (list string) :=
  if isArr (get json "ord")
  then ws ← normalizeWords (get json "ord");
       Ok (match ws with
           | [] => keys cats
           | _ :: _ => filter (λ n, n ∈ keys cats) ws
           end)
  else Ok (keys cats).

End specification.

(** [n] is no category of [c], yet [c[n]] is truthy: the prototype chain
    supplies it. *)
Definition inherits (c : Cats) (n : string) : bool :=
  bool_decide (n ∉ keys c) && truthy_property (cats_get c n).

(** No object of [v] has an own property [toString]. *)
Fixpoint plain (v : value) : bool :=
  match v with
  | VArr xs => forallb plain xs
  | VObj ps => negb (has_own "toString" ps) && forallb (λ p, plain p.2) ps
  | _ => true
  end.

Inductive number_class : Type := Zero | NotANumber | Positive | Negative.

Definition classify (n : number) : number_class :=
  match n with
  | S754_zero _ => Zero
  | S754_nan => NotANumber
  | S754_infinity s | S754_finite s _ _ => if s then Negative else Positive
  end.

(** The default rule as the specification words it: whatever is not a
    positive number gives way to the default [d]. *)
Definition default_spec (d n : number) : number :=
  match classify n with
  | Positive => n
  | Zero | NotANumber | Negative => d
  end.

(** The default rule with the negative numbers kept. *)
Definition default_amended (d n : number) : number :=
  match classify n with
  | Positive | Negative => n
  | Zero | NotANumber => d
  end.

(** A line of the card: the coordinates of its cells. *)
Definition line : Type := list (nat * nat).

Definition rows : list line :=
  (λ r, (λ c, (r, c)) <$> seq 0 SIZE) <$> seq 0 SIZE.
Definition columns : list line :=
  (λ c, (λ r, (r, c)) <$> seq 0 SIZE) <$> seq 0 SIZE.
Definition diagonals : list line :=
  [ (λ i, (i, i)) <$> seq 0 SIZE; (λ i, (i, SIZE - 1 - i)) <$> seq 0 SIZE ].
Definition all_lines : list line := rows ++ columns ++ diagonals.

(** The cell at row [r] and column [c] of a matrix. *)
Definition cell {A} (M : list (list A)) (r c : nat) : option A :=
  M !! r ≫= (.!! c).

(** A line is completed when every cell of it is marked. *)
Definition completed (M : list (list bool)) (l : line) : bool :=
  forallb (λ rc, default false (cell M rc.1 rc.2)) l.

Definition completed_lines (M : list (list bool)) : nat :=
  length (filter (λ l, completed M l) all_lines).

Definition is_4x4 {A} (M : list (list A)) : Prop :=
  length M = SIZE ∧ Forall (λ row, length row = SIZE) M.

(** Every row of four marks, and every 4×4 matrix of marks. *)
Definition bool_rows : list (list bool) :=
  a ← [false; true]; b ← [false; true]; c ← [false; true]; d ← [false; true];
  [[a; b; c; d]].

Definition bool_matrices : list (list (list bool)) :=
  r0 ← bool_rows; r1 ← bool_rows; r2 ← bool_rows; r3 ← bool_rows;
  [[r0; r1; r2; r3]].

(** [countCompletedLines] returns the number of completed lines of [M],
    which is at most ten. *)
Definition counts_lines (M : list (list bool)) : bool :=
  match countCompletedLines M with
  | Ok n => (n =? completed_lines M) && (n <=? 10)
  | Throw _ => false
  end.

(** ** Sample data *)

Definition animals : list string :=
  [ "cat"; "dog"; "fox"; "owl"; "bee"; "ant"; "cow"; "pig";
    "rat"; "bat"; "elk"; "ram"; "hen"; "yak"; "boa"; "eel" ].

(** A random source: the draws 3, 10, 17, ... *)
Definition sample_rng : rng := λ k, 7 * k + 3.

Definition sample_heap : gmap positive (list nat) :=
  {[ 1%positive := [10; 20; 30] ]}.

Definition no_marks : list (list bool) := replicate 4 (replicate 4 false).
Definition all_marks : list (list bool) := replicate 4 (replicate 4 true).
Definition first_row_marks : list (list bool) :=
  replicate 4 true :: replicate 3 (replicate 4 false).

(** Decoded configuration documents. *)

(** [{cats: {A: [...16 words]}, ord: ["A", "B"]}] *)
Definition ordered_config : value :=
  VObj [ ("cats", VObj [("A", VArr (VStr <$> animals))]);
         ("ord", VArr [VStr "A"; VStr "B"]) ].

(** [{cats: {A: []}, ord: []}] *)
Definition empty_ord_config : value :=
  VObj [ ("cats", VObj [("A", VArr [])]); ("ord", VArr []) ].

(** [{cats: {A: []}, ord: ["A", "toString"]}] *)
Definition inherited_ord_config : value :=
  VObj [ ("cats", VObj [("A", VArr [])]);
         ("ord", VArr [VStr "A"; VStr "toString"]) ].

(** [{size: -5, lines: 0}] *)
Definition negative_size_config : value :=
  VObj [ ("size", VNum (number_of_Z (-5))); ("lines", VNum (S754_zero false)) ].

(** [{cats: {A: [{toString: 1}]}}] *)
Definition toString_config : value :=
  VObj [ ("cats", VObj [("A", VArr [VObj [("toString", VNum (number_of_nat 1))]])]) ].

(** [{cats: ["x"]}] *)
Definition array_cats_config : value :=
  VObj [ ("cats", VArr [VStr "x"]) ].

(** [{cats: {Animals: [...16 words]}}] *)
Definition animals_config : value :=
  VObj [ ("cats", VObj [("Animals", VArr (VStr <$> animals))]) ].

(** Three rows marked and the row [r] not. *)
Definition three_rows (r : nat) : list (list bool) :=
  <[r := replicate 4 false]> all_marks.

(** [{cats: "not-an-object"}] *)
Definition string_cats_config : value :=
  VObj [ ("cats", VStr "not-an-object") ].

(** A mapping with the categories [own] and the prototype [Object.prototype]. *)
Definition plain_cats (own : list (string * list string)) : Cats :=
  {| own := own; proto := None |}.

(** * Properties *)

(** ** Strings *)

Example trim_spaces : trim "  z  " = "z".
Proof. reflexivity. Qed.

(** An ideographic space (U+3000), a no-break space (U+00A0), a tab and a
    line feed go; the space inside stays. *)
Example trim_unicode :
  trim (utf8 [227; 128; 128; 194; 160] +:+ "달빛 캠프" +:+ utf8 [9; 10])
  = "달빛 캠프".
Proof. reflexivity. Qed.

Example trim_blank : trim (" " +:+ utf8 [9] +:+ "  ") = "".
Proof. reflexivity. Qed.

(** Each removal shortens the string, so the fuel of [trimStart] and of
    [trimEnd] is never used up: what they return starts, or ends, with no
    whitespace. *)
Lemma strip_length (p s s' : list ascii) :
  strip p s = Some s' → length s = length p + length s'.
Proof.
  revert s. induction p as [|a p IH]; intros [|b s]; simpl; try done.
  - by intros [= <-].
  - by intros [= <-].
  - destruct (decide (a = b)); [|done]. intros Hs. by rewrite (IH s Hs).
Qed.

Lemma strip_any_shorter (ps : list (list ascii)) (s s' : list ascii) :
  Forall (λ p, p ≠ []) ps → strip_any ps s = Some s' → length s' < length s.
Proof.
  induction 1 as [|p ps Hp _ IH]; simpl; [done|].
  destruct (strip p s) as [s''|] eqn:Hstrip; [|done].
  intros [= <-]. apply strip_length in Hstrip.
  destruct p; [done|]. simpl in Hstrip. lia.
Qed.

Lemma strip_all_done (ps : list (list ascii)) (fuel : nat) (s : list ascii) :
  Forall (λ p, p ≠ []) ps → length s ≤ fuel →
  strip_any ps (strip_all ps fuel s) = None.
Proof.
  intros Hps. revert s. induction fuel as [|fuel IH]; intros s Hlen; simpl.
  - destruct (strip_any ps s) as [s'|] eqn:Hs; [|done].
    apply strip_any_shorter in Hs; [lia|done].
  - destruct (strip_any ps s) as [s'|] eqn:Hs; [|done].
    apply IH. apply strip_any_shorter in Hs; [lia|done].
Qed.

Lemma whitespace_nonempty : Forall (λ p : list ascii, p ≠ []) whitespace.
Proof. repeat constructor; discriminate. Qed.

Lemma trimStart_done (s : list ascii) : strip_any whitespace (trimStart s) = None.
Proof. by apply strip_all_done; [apply whitespace_nonempty|]. Qed.

Lemma trimEnd_done (s : list ascii) :
  strip_any (map (@rev ascii) whitespace) (rev (trimEnd s)) = None.
Proof.
  unfold trimEnd. rewrite rev_involutive.
  apply strip_all_done; [|by rewrite length_rev].
  apply Forall_fmap. eapply Forall_impl; [apply whitespace_nonempty|].
  intros [|a p] Hp; [done|]. simpl. intros Hrev.
  by apply app_eq_nil in Hrev as [_ ?].
Qed.

Lemma strip_app (p s s' : list ascii) : strip p s = Some s' → s = p ++ s'.
Proof.
  revert s. induction p as [|a p IH]; intros [|b s]; simpl; try done.
  - by intros [= <-].
  - by intros [= <-].
  - destruct (decide (a = b)) as [->|]; [|done]. intros Hs. by rewrite (IH s Hs).
Qed.

Lemma strip_any_app (ps : list (list ascii)) (s s' : list ascii) :
  strip_any ps s = Some s' → ∃ p, s = p ++ s'.
Proof.
  induction ps as [|p ps IH]; simpl; [done|].
  destruct (strip p s) as [s''|] eqn:Hstrip; [|done].
  intros [= <-]. exists p. by apply strip_app.
Qed.

Lemma strip_all_suffix (ps : list (list ascii)) (fuel : nat) (s : list ascii) :
  ∃ p, s = p ++ strip_all ps fuel s.
Proof.
  revert s. induction fuel as [|fuel IH]; intros s; simpl; [by exists []|].
  destruct (strip_any ps s) as [s'|] eqn:Hs; [|by exists []].
  destruct (strip_any_app _ _ _ Hs) as [p ->], (IH s') as [q Hq].
  exists (p ++ q). by rewrite <- app_assoc, <- Hq.
Qed.

(** A prefix of a string that starts with no member of [ps] starts with
    none either, unless it is too short to tell. *)
Lemma strip_prefix_None (p s t : list ascii) :
  strip p (s ++ t) = None → strip p s = None.
Proof.
  revert s. induction p as [|a p IH]; intros [|b s]; simpl; try done.
  destruct (decide (a = b)); [apply IH|done].
Qed.

Lemma strip_any_prefix_None (ps : list (list ascii)) (s t : list ascii) :
  strip_any ps (s ++ t) = None → strip_any ps s = None.
Proof.
  induction ps as [|p ps IH]; simpl; [done|].
  destruct (strip p (s ++ t)) eqn:Hstrip; [done|].
  rewrite (strip_prefix_None _ _ _ Hstrip). apply IH.
Qed.

(** [trim] leaves no whitespace at either end. *)
Lemma trim_done (s : string) :
  strip_any whitespace (list_ascii_of_string (trim s)) = None ∧
  strip_any (map (@rev ascii) whitespace) (rev (list_ascii_of_string (trim s)))
  = None.
Proof.
  unfold trim. rewrite list_ascii_of_string_of_list_ascii.
  split; [|apply trimEnd_done].
  set (t := trimStart (list_ascii_of_string s)).
  destruct (strip_all_suffix (map (@rev ascii) whitespace) (length t) (rev t))
    as [p Hp].
  assert (Ht : t = trimEnd t ++ rev p).
  { unfold trimEnd. rewrite <- rev_app_distr, <- Hp. by rewrite rev_involutive. }
  apply (strip_any_prefix_None _ _ (rev p)). rewrite <- Ht.
  apply trimStart_done.
Qed.

Lemma strip_all_stuck (ps : list (list ascii)) (fuel : nat) (s : list ascii) :
  strip_any ps s = None → strip_all ps fuel s = s.
Proof. intros Hs. destruct fuel; simpl; [done|]. by rewrite Hs. Qed.

Lemma trim_idemp (s : string) : trim (trim s) = trim s.
Proof.
  destruct (trim_done s) as [Hstart Hend].
  unfold trim at 1. unfold trimStart, trimEnd.
  rewrite (strip_all_stuck _ _ _ Hstart), (strip_all_stuck _ _ _ Hend).
  by rewrite rev_involutive, string_of_list_ascii_of_string.
Qed.

(** [trim] cuts a piece out of the string. *)
Lemma trim_infix (s : string) :
  ∃ p q, list_ascii_of_string s = p ++ list_ascii_of_string (trim s) ++ q.
Proof.
  unfold trim. rewrite list_ascii_of_string_of_list_ascii.
  destruct (strip_all_suffix whitespace (length (list_ascii_of_string s))
              (list_ascii_of_string s)) as [p Hp].
  fold (trimStart (list_ascii_of_string s)) in Hp.
  set (t := trimStart (list_ascii_of_string s)) in *.
  destruct (strip_all_suffix (map (@rev ascii) whitespace) (length t) (rev t))
    as [q Hq].
  exists p, (rev q). rewrite Hp at 1. f_equal.
  unfold trimEnd. rewrite <- rev_app_distr, <- Hq. by rewrite rev_involutive.
Qed.

(** ** Shuffle *)

(** A draw below [n] is an index below [n], and can be any of them. *)
Lemma random_below_lt (n : nat) (g : rng) : n ≠ 0 → (random_below n g).1 < n.
Proof. intros Hn. simpl. by apply Nat.mod_upper_bound. Qed.

Lemma random_below_any (n j : nat) : j < n → (random_below n (λ _, j)).1 = j.
Proof. intros Hj. simpl. by apply Nat.mod_small. Qed.

Section shuffle_facts.
Context {T : Type}.
Implicit Types (a xs : list T) (g : rng).

(** Overwriting the element [y] at [i] by [x] trades one [y] for one [x]. *)
Lemma insert_trades a i (x y : T) :
  a !! i = Some y → x :: a ≡ₚ y :: <[i := x]> a.
Proof.
  revert i. induction a as [|z a IH]; intros [|i] Hi; simplify_eq/=.
  - apply perm_swap.
  - rewrite perm_swap, (IH i Hi). apply perm_swap.
Qed.

Lemma swap_Permutation i j a : swap i j a ≡ₚ a.
Proof.
  unfold swap.
  destruct (a !! i) as [ai|] eqn:Hi; [|done].
  destruct (a !! j) as [aj|] eqn:Hj; [|done].
  assert (Hj' : <[i := aj]> a !! j = Some aj).
  { destruct (decide (i = j)) as [->|Hne].
    - apply list_lookup_insert_eq. by eapply lookup_lt_Some.
    - by rewrite list_lookup_insert_ne. }
  apply (Permutation_cons_inv (a := aj)).
  by rewrite <- (insert_trades _ _ _ _ Hj'), <- (insert_trades _ _ _ _ Hi).
Qed.

Lemma shuffle_loop_Permutation i a g : (shuffle_loop i a g).1 ≡ₚ a.
Proof.
  revert a g. induction i as [|i IH]; intros a g; [done|].
  simpl. rewrite IH. apply swap_Permutation.
Qed.

Lemma shuffle_Permutation xs g : (shuffle xs g).1 ≡ₚ xs.
Proof. apply shuffle_loop_Permutation. Qed.

(** The loop on the array at [a] does to the store what the loop on the
    contents does to the contents, and touches no other array. *)
Lemma Heap_swap_contents (a : Heap.loc) i j (h : Heap.heap T) xs :
  h !! a = Some xs → Heap.swap a i j h = <[a := swap i j xs]> h.
Proof.
  intros Ha. unfold Heap.swap, swap. rewrite Ha.
  destruct (xs !! i), (xs !! j); by rewrite ?(insert_id h a xs Ha).
Qed.

Lemma Heap_shuffle_loop_contents (a : Heap.loc) i (h : Heap.heap T) xs g :
  h !! a = Some xs →
  Heap.shuffle_loop a i h g
  = (<[a := (shuffle_loop i xs g).1]> h, (shuffle_loop i xs g).2).
Proof.
  revert h xs g. induction i as [|i IH]; intros h xs g Ha; simpl.
  - by rewrite (insert_id h a xs Ha).
  - rewrite (Heap_swap_contents _ _ _ _ _ Ha).
    rewrite (IH _ (swap (Datatypes.S i) (g 0 `mod` (Datatypes.S i + 1)) xs))
      by apply lookup_insert_eq.
    by rewrite insert_insert_eq.
Qed.

End shuffle_facts.

(** C10: for every array [arr] of the store, with contents [xs], and every
    random source, [shuffle(arr)] returns a new array [a]; the store after
    the call is the store before it with [a] added, so [arr] still holds
    [xs]; and the contents [ys] of [a] are a permutation of [xs] (the same
    elements with the same multiplicities, the same length), namely what
    the loop makes of [xs]. *)
Theorem shuffle_permutes_a_copy {T} (h : Heap.heap T) (arr : Heap.loc)
    (xs : list T) (g : rng) :
  h !! arr = Some xs →
  ∃ a ys g',
    Heap.shuffle arr h g = Some (a, <[a := ys]> h, g') ∧
    h !! a = None ∧
    <[a := ys]> h !! arr = Some xs ∧
    ys ≡ₚ xs ∧ length ys = length xs ∧
    (ys, g') = shuffle xs g.
Proof.
  intros Harr. unfold Heap.shuffle. rewrite Harr. simpl.
  set (a := fresh (dom h)).
  assert (Ha : h !! a = None) by (apply not_elem_of_dom, is_fresh).
  rewrite (Heap_shuffle_loop_contents a _ _ xs) by apply lookup_insert_eq.
  rewrite insert_insert_eq.
  exists a, (shuffle xs g).1, (shuffle xs g).2.
  split_and!; try done.
  - rewrite lookup_insert_ne; [done|]. intros ->. congruence.
  - apply shuffle_Permutation.
  - apply Permutation_length, shuffle_Permutation.
  - by destruct (shuffle xs g).
Qed.

Lemma shuffle_permutes_a_copy_witness :
  ∃ a ys g',
    Heap.shuffle 1%positive sample_heap sample_rng
      = Some (a, <[a := ys]> sample_heap, g') ∧
    sample_heap !! a = None ∧
    <[a := ys]> sample_heap !! 1%positive = Some [10; 20; 30] ∧
    ys ≡ₚ [10; 20; 30] ∧ length ys = length [10; 20; 30] ∧
    (ys, g') = shuffle [10; 20; 30] sample_rng.
Proof.
  apply (shuffle_permutes_a_copy sample_heap 1%positive).
  reflexivity.
Defined.

Example shuffle_sample : (shuffle [1; 2; 3; 4; 5] sample_rng).1 = [2; 1; 5; 3; 4].
Proof. reflexivity. Qed.

(** ** Card generator *)

Lemma mapR_S_strings {rt : Runtime} (W : list string) : mapR S (VStr <$> W) = Ok W.
Proof.
  induction W as [|w W IH]; [done|].
  rewrite fmap_cons. cbn [mapR]. by rewrite IH.
Qed.

(** Normalization leaves a WordList as it is. *)
Lemma normalizeWords_words {rt : Runtime} (W : list string) :
  Forall is_word W → normalizeWords (VArr (VStr <$> W)) = Ok W.
Proof.
  intros HW. unfold normalizeWords. rewrite mapR_S_strings. simpl. f_equal.
  induction HW as [|w W [Hne Htrim] _ IH]; [done|].
  simpl. rewrite Htrim, filter_cons_True, IH; [done|].
  unfold truthy_string. by rewrite bool_decide_eq_false_2.
Qed.

(** With enough words, the two loops lay the first sixteen shuffled words
    out in four rows of four. *)
Lemma generateCard_grid {rt : Runtime} (raw : value) (ws : list string) (g : rng) :
  normalizeWords raw = Ok ws → SIZE * SIZE ≤ length ws →
  ∃ grid,
    generateCard raw g = Ok (grid, (shuffle ws g).2) ∧
    concat grid = take (SIZE * SIZE) (shuffle ws g).1 ∧
    length grid = SIZE ∧ Forall (λ row, length row = SIZE) grid ∧
    (∀ r c, r < SIZE → c < SIZE →
       cell grid r c = take (SIZE * SIZE) (shuffle ws g).1 !! (SIZE * r + c)).
Proof.
  intros Hws Hlen. unfold generateCard. rewrite Hws. simpl.
  rewrite bool_decide_eq_false_2 by (unfold SIZE in *; lia).
  pose proof (shuffle_Permutation ws g) as Hperm.
  destruct (shuffle ws g) as [shuffled g'] eqn:Hsh. simpl in *.
  apply Permutation_length in Hperm.
  assert (Hpicks : length (take 16 shuffled) = 16)
    by (rewrite length_take; unfold SIZE in *; lia).
  destruct (take 16 shuffled) as [|p0 [|p1 [|p2 [|p3 [|p4 [|p5 [|p6 [|p7
    [|p8 [|p9 [|p10 [|p11 [|p12 [|p13 [|p14 [|p15 [|]]]]]]]]]]]]]]]]];
    try discriminate Hpicks.
  eexists. split; [reflexivity|]. split; [reflexivity|].
  split; [reflexivity|]. split; [by repeat constructor|].
  intros r c Hr Hc. unfold SIZE in *.
  destruct r as [|[|[|[|]]]]; try lia;
    destruct c as [|[|[|[|]]]]; try lia; reflexivity.
Qed.

(** C1: for every word list [W] (non-empty trimmed strings) with at least
    16 entries and every random source, [generateCard(W)] returns a grid
    of 4 rows of 4 cells; row by row the cells are the first 16 words of
    the shuffled list (cell [(r, c)] is word [4 r + c]); as a multiset the
    16 cells are contained in the entries of [W]; and if [W] has no
    duplicates the cells are pairwise distinct. *)
Theorem generateCard_draws_from_words {rt : Runtime} (W : list string) (g : rng) :
  Forall is_word W → 16 ≤ length W →
  ∃ grid g',
    generateCard (VArr (VStr <$> W)) g = Ok (grid, g') ∧
    length grid = 4 ∧ Forall (λ row, length row = 4) grid ∧
    concat grid = take 16 (shuffle W g).1 ∧
    (∀ r c, r < 4 → c < 4 →
       cell grid r c = take 16 (shuffle W g).1 !! (4 * r + c)) ∧
    concat grid ⊆+ W ∧
    (NoDup W → NoDup (concat grid)).
Proof.
  intros HW Hlen.
  destruct (generateCard_grid _ W g (normalizeWords_words W HW) Hlen)
    as (grid & Hgen & Hcells & Hrows & Hcols & Hmajor).
  exists grid, (shuffle W g).2. split_and!; try done.
  - rewrite Hcells. etrans; [apply submseteq_take|].
    apply Permutation_submseteq, shuffle_Permutation.
  - intros Hnodup. rewrite Hcells.
    eapply sublist_NoDup; [|apply sublist_take].
    by rewrite (shuffle_Permutation W g).
Qed.

Lemma animals_words : Forall is_word animals.
Proof. repeat constructor; discriminate. Qed.

Lemma generateCard_draws_from_words_witness :
  ∃ grid g',
    generateCard (rt := decimal_runtime) (VArr (VStr <$> animals)) sample_rng
      = Ok (grid, g') ∧
    length grid = 4 ∧ Forall (λ row, length row = 4) grid ∧
    concat grid = take 16 (shuffle animals sample_rng).1 ∧
    (∀ r c, r < 4 → c < 4 →
       cell grid r c = take 16 (shuffle animals sample_rng).1 !! (4 * r + c)) ∧
    concat grid ⊆+ animals ∧
    (NoDup animals → NoDup (concat grid)).
Proof.
  apply (generateCard_draws_from_words (rt := decimal_runtime) animals sample_rng
           animals_words).
  simpl. lia.
Defined.

Example generateCard_animals :
  fst <$> generateCard (rt := decimal_runtime) (VArr (VStr <$> animals)) sample_rng
  = Ok [ ["bee"; "fox"; "bat"; "cow"]; ["cat"; "dog"; "rat"; "yak"];
         ["hen"; "boa"; "ant"; "pig"]; ["ram"; "eel"; "elk"; "owl"] ].
Proof. vm_compute. reflexivity. Qed.

(** C2: whenever the word list normalizes to fewer than 16 entries,
    [generateCard] throws an error whose message carries the required
    count 16 and the number of entries provided; it returns no grid. *)
Theorem generateCard_insufficient {rt : Runtime} (raw : value) (ws : list string)
    (g : rng) :
  normalizeWords raw = Ok ws → length ws < 16 →
  generateCard raw g
  = Throw (Error ("단어 풀이 부족합니다. (필요: 16, 제공: "
                  +:+ pretty (length ws) +:+ ")")).
Proof.
  intros Hws Hlen. unfold generateCard. rewrite Hws. simpl.
  by rewrite bool_decide_eq_true_2.
Qed.

Lemma generateCard_insufficient_witness :
  generateCard (rt := decimal_runtime)
    (VArr [VStr "cat"; VNull; VStr " dog "; VStr "  "]) sample_rng
  = Throw (Error "단어 풀이 부족합니다. (필요: 16, 제공: 2)").
Proof.
  apply (generateCard_insufficient (rt := decimal_runtime)
           (VArr [VStr "cat"; VNull; VStr " dog "; VStr "  "]) ["cat"; "dog"]
           sample_rng).
  - reflexivity.
  - simpl. lia.
Defined.

(** ** Win detector *)

Lemma bool_listed (b : bool) : b ∈ [false; true].
Proof. destruct b; repeat constructor. Qed.

Lemma bool_rows_complete (row : list bool) : length row = 4 → row ∈ bool_rows.
Proof.
  destruct row as [|a [|b [|c [|d [|]]]]]; try discriminate. intros _.
  unfold bool_rows.
  repeat (apply list_elem_of_bind; eexists; split; [|apply bool_listed]).
  constructor.
Qed.

Lemma bool_matrices_complete (M : list (list bool)) :
  is_4x4 M → M ∈ bool_matrices.
Proof.
  intros [Hlen Hrows].
  destruct M as [|r0 [|r1 [|r2 [|r3 [|]]]]]; try discriminate.
  repeat match goal with
         | H : Forall _ (_ :: _) |- _ => apply Forall_cons in H; destruct H
         end.
  unfold bool_matrices.
  apply list_elem_of_bind; exists r0; split; [|by apply bool_rows_complete].
  apply list_elem_of_bind; exists r1; split; [|by apply bool_rows_complete].
  apply list_elem_of_bind; exists r2; split; [|by apply bool_rows_complete].
  apply list_elem_of_bind; exists r3; split; [|by apply bool_rows_complete].
  constructor.
Qed.

(** The three loops are run on each of the 65536 matrices. *)
Lemma all_matrices_counted : forallb counts_lines bool_matrices = true.
Proof. vm_compute. reflexivity. Qed.

(** C3: for every 4×4 matrix of marks, [countCompletedLines] returns the
    number of completed lines among the 4 rows, the 4 columns and the 2
    diagonals, a number up to 10; no marks give 0, all marks give 10, and
    the first row marked alone gives 1. *)
Theorem countCompletedLines_exact (M : list (list bool)) :
  is_4x4 M →
  countCompletedLines M = Ok (completed_lines M) ∧
  completed_lines M ≤ 10 ∧
  countCompletedLines no_marks = Ok 0 ∧
  countCompletedLines all_marks = Ok 10 ∧
  countCompletedLines first_row_marks = Ok 1.
Proof.
  intros HM%bool_matrices_complete.
  pose proof all_matrices_counted as Hall.
  rewrite forallb_forall in Hall.
  apply list_elem_of_In, Hall in HM. unfold counts_lines in HM.
  destruct (countCompletedLines M) as [n|]; [|done].
  apply andb_prop in HM as [->%Nat.eqb_eq Hle%Nat.leb_le]. done.
Qed.

Lemma first_row_marks_4x4 : is_4x4 first_row_marks.
Proof. split; [reflexivity|]. by repeat constructor. Qed.

Lemma countCompletedLines_exact_witness :
  countCompletedLines first_row_marks = Ok (completed_lines first_row_marks) ∧
  completed_lines first_row_marks ≤ 10 ∧
  countCompletedLines no_marks = Ok 0 ∧
  countCompletedLines all_marks = Ok 10 ∧
  countCompletedLines first_row_marks = Ok 1.
Proof.
  exact (countCompletedLines_exact first_row_marks first_row_marks_4x4).
Defined.

(** ** Toggle *)

(** C4: toggling twice at the same coordinates gives the matrix back; this
    holds for every matrix and all coordinates, so for the 4×4 matrices and
    the coordinates in range. *)
Theorem toggle_twice (r c : nat) (M : list (list bool)) :
  toggle r c (toggle r c M) = M.
Proof.
  unfold toggle. apply list_eq; intros i. rewrite !list_lookup_imap.
  destruct (M !! i) as [row|]; [|done]. simpl. f_equal.
  apply list_eq; intros j. rewrite !list_lookup_imap.
  destruct (row !! j) as [m|]; [|done]. simpl. f_equal.
  destruct (bool_decide (i = r) && bool_decide (j = c)); [|done].
  apply negb_involutive.
Qed.

Lemma cell_toggle (r c r' c' : nat) (M : list (list bool)) :
  cell (toggle r c M) r' c'
  = (λ m, if bool_decide (r' = r) && bool_decide (c' = c) then negb m else m)
      <$> cell M r' c'.
Proof.
  unfold cell, toggle. rewrite list_lookup_imap.
  destruct (M !! r') as [row|]; [|done]. simpl.
  by rewrite list_lookup_imap.
Qed.

Lemma toggle_4x4 (r c : nat) (M : list (list bool)) :
  is_4x4 M → is_4x4 (toggle r c M).
Proof.
  unfold is_4x4, toggle. intros [Hlen Hrows]. split.
  - by rewrite length_imap.
  - apply Forall_lookup. intros i row. rewrite list_lookup_imap.
    destruct (M !! i) as [row0|] eqn:Hi; [|done]. intros [= <-].
    rewrite length_imap. by eapply (Forall_lookup_1 _ _ _ _ Hrows).
Qed.

Lemma cell_4x4 {A} (M : list (list A)) (r c : nat) :
  is_4x4 M → r < SIZE → c < SIZE → is_Some (cell M r c).
Proof.
  intros [Hlen Hrows] Hr Hc. unfold cell.
  destruct (lookup_lt_is_Some_2 M r) as [row Hrow]; [lia|].
  rewrite Hrow. simpl. apply lookup_lt_is_Some_2.
  by rewrite (Forall_lookup_1 _ _ _ _ Hrows Hrow).
Qed.

(** C5: for every 4×4 matrix [M] and coordinates [(r, c)] in range, the
    cell [(r, c)] of [toggle(M, r, c)] is the negation of that cell of [M],
    every other cell is the cell of [M], and the result is 4×4. *)
Theorem toggle_flips_one (r c : nat) (M : list (list bool)) :
  is_4x4 M → r < 4 → c < 4 →
  ∃ m,
    cell M r c = Some m ∧
    cell (toggle r c M) r c = Some (negb m) ∧
    (∀ r' c', (r', c') ≠ (r, c) → cell (toggle r c M) r' c' = cell M r' c') ∧
    is_4x4 (toggle r c M).
Proof.
  intros HM Hr Hc. destruct (cell_4x4 M r c HM Hr Hc) as [m Hm].
  exists m. split_and!; [done| | |by apply toggle_4x4].
  - rewrite cell_toggle, Hm. simpl. by rewrite !bool_decide_eq_true_2.
  - intros r' c' Hne. rewrite cell_toggle.
    destruct (cell M r' c') as [m'|]; [|done]. simpl. f_equal.
    repeat case_bool_decide; simplify_eq/=; done.
Qed.

Lemma toggle_flips_one_witness :
  ∃ m,
    cell first_row_marks 0 2 = Some m ∧
    cell (toggle 0 2 first_row_marks) 0 2 = Some (negb m) ∧
    (∀ r' c', (r', c') ≠ (0, 2) →
       cell (toggle 0 2 first_row_marks) r' c' = cell first_row_marks r' c') ∧
    is_4x4 (toggle 0 2 first_row_marks).
Proof.
  apply (toggle_flips_one 0 2 first_row_marks first_row_marks_4x4); lia.
Defined.

Example toggle_sample :
  toggle 0 2 first_row_marks
  = [true; true; false; true] :: replicate 3 (replicate 4 false).
Proof. reflexivity. Qed.

(** ** Normalizer: word lists *)

Lemma S_coerce {rt : Runtime} (x : value) : S x = coerce x.
Proof. by destruct x. Qed.

Lemma normalizeWords_keep {rt : Runtime} (xs : list value) :
  normalizeWords (VArr xs) = keep_words xs.
Proof.
  unfold normalizeWords. induction xs as [|x xs IH]; [done|].
  cbn [mapR keep_words]. rewrite <- IH, S_coerce.
  destruct (coerce x) as [s|]; [|done]. simpl.
  destruct (mapR S xs) as [strs|]; [|done]. simpl. f_equal.
  destruct (decide (trim s = "")) as [Hs|Hs].
  - rewrite filter_cons_False; [done|].
    unfold truthy_string. rewrite Hs. by intros [].
  - rewrite filter_cons_True; [done|].
    unfold truthy_string. by rewrite bool_decide_eq_false_2.
Qed.

(** C6: [normalizeWords] is the word-list rule of the specification: the
    empty list for an input that is not a list; otherwise, element by
    element and in order, the string coercion (the empty string for a null
    or absent element), trimmed, and dropped when empty (a coercion that
    throws makes both throw).  Duplicates stay:
    [["x", "y", null, "  z  ", "y"]] normalizes to [["x", "y", "z", "y"]]. *)
Theorem normalizeWords_refines {rt : Runtime} :
  (∀ raw, normalizeWords raw = normalizeWords_spec raw) ∧
  normalizeWords (VArr [VStr "x"; VStr "y"; VNull; VStr "  z  "; VStr "y"])
  = Ok ["x"; "y"; "z"; "y"].
Proof.
  split; [|done].
  intros raw. destruct raw; try done. apply normalizeWords_keep.
Qed.

(** Elements of other types: a number, a boolean, a nested list and an
    object. *)
Example normalizeWords_coercions :
  normalizeWords (rt := decimal_runtime)
    (VArr [ VNum (number_of_nat 12); VBool true; VUndefined;
            VArr [VNum (number_of_nat 1); VNull; VStr "b"]; VObj [] ])
  = Ok ["12"; "true"; "1,,b"; "[object Object]"].
Proof. by vm_compute. Qed.

(** What survives is, in order, what is left of the elements. *)
Lemma keep_words_sublist {rt : Runtime} (xs : list value) (strs ws : list string) :
  mapR coerce xs = Ok strs → keep_words xs = Ok ws →
  ws `sublist_of` (trim <$> strs) ∧ Forall (λ w, w ≠ "") ws.
Proof.
  revert strs ws. induction xs as [|x xs IH]; intros strs ws; simpl.
  - intros [= <-] [= <-]. split; constructor.
  - destruct (coerce x) as [s|]; [|done]. simpl.
    destruct (mapR coerce xs) as [strs'|]; [|done]. simpl.
    destruct (keep_words xs) as [ws'|]; [|done]. simpl.
    intros [= <-] [= <-]. destruct (IH strs' ws' eq_refl eq_refl) as [Hsub Hne].
    rewrite fmap_cons. destruct (decide (trim s = "")).
    + split; [by apply sublist_cons|done].
    + split; [by apply sublist_skip|by constructor].
Qed.

(** X4: what [normalizeWords] returns is a WordList, every entry a
    non-empty trimmed string, and normalizing it again changes nothing. *)
Theorem normalizeWords_WordList {rt : Runtime} (raw : value) (ws : list string) :
  normalizeWords raw = Ok ws →
  Forall is_word ws ∧ normalizeWords (VArr (VStr <$> ws)) = Ok ws.
Proof.
  intros Hws. assert (Forall is_word ws) as HW; [|by rewrite normalizeWords_words].
  revert Hws.
  destruct raw as [| | | | |xs|]; simpl; try (intros [= <-]; constructor).
  destruct (mapR S xs) as [strs|]; [|done]. simpl. intros [= <-].
  apply Forall_forall.
  intros w [Hw [s [-> _]]%list_elem_of_fmap]%list_elem_of_filter.
  split; [|apply trim_idemp].
  unfold truthy_string in Hw. intros Hs. by rewrite Hs in Hw.
Qed.

Lemma normalizeWords_WordList_witness :
  Forall is_word ["cat"; "dog"] ∧
  normalizeWords (rt := decimal_runtime) (VArr (VStr <$> ["cat"; "dog"]))
  = Ok ["cat"; "dog"].
Proof.
  apply (normalizeWords_WordList (rt := decimal_runtime)
           (VArr [VStr "cat"; VNull; VStr " dog "; VStr "  "])).
  reflexivity.
Defined.

(** ** Normalizer: configuration *)

Lemma assoc_Some_keys {A} (k : string) (ps : list (string * A)) :
  is_Some (assoc k ps) ↔ k ∈ map fst ps.
Proof.
  induction ps as [|[k' a] ps IH]; simpl.
  - split; [by intros [? ?]|by intros ?%elem_of_nil].
  - rewrite elem_of_cons. destruct (decide (k = k')) as [->|Hne].
    + split; eauto.
    + rewrite IH. split; [by right|by intros [?|?]].
Qed.

Lemma filter_all {A} (P : A → Prop) `{∀ x, Decision (P x)} (l : list A) :
  Forall P l → filter P l = l.
Proof.
  induction 1 as [|x l Hx _ IH]; [done|].
  by rewrite filter_cons_True, IH.
Qed.

Lemma filter_agree {A} (P Q : A → Prop)
    `{∀ x, Decision (P x), ∀ x, Decision (Q x)} (l : list A) :
  Forall (λ x, P x ↔ Q x) l → filter P l = filter Q l.
Proof.
  induction 1 as [|x l Hx _ IH]; [done|].
  rewrite !filter_cons, IH.
  destruct (decide (P x)), (decide (Q x)); tauto.
Qed.

(** A category is a truthy property of the mapping. *)
Lemma cats_get_own (c : Cats) (n : string) :
  n ∈ keys c → truthy_property (cats_get c n) = true.
Proof.
  intros [ws Hws]%assoc_Some_keys. unfold cats_get. by rewrite Hws.
Qed.

Lemma filter_keys (c : Cats) :
  filter (λ n, truthy_property (cats_get c n)) (keys c) = keys c.
Proof.
  apply filter_all, Forall_forall. intros n Hn.
  by rewrite cats_get_own.
Qed.

(** The fields of a configuration that [normalizeConfig] returns. *)
Lemma normalizeConfig_Ok {rt : Runtime} (json : value) (cfg : Config.t) :
  normalizeConfig json = Ok cfg →
  ∃ s l,
    (if isArr (get json "ord") then normalizeWords (get json "ord")
     else Ok (keys (Config.cats cfg))) = Ok (Config.ord cfg) ∧
    ToNumber (get json "size") = Ok s ∧
    ToNumber (get json "lines") = Ok l ∧
    Config.size cfg = (if truthy_number s then s else number_of_nat SIZE) ∧
    Config.lines cfg
    = (if truthy_number l then l else number_of_nat REQUIRED_LINES).
Proof.
  unfold normalizeConfig. intros Hcfg.
  destruct (foldR _ _ _) as [cats|]; [|done]. simpl in Hcfg.
  destruct (if isArr _ then _ else _) as [ord|] eqn:Hord; [|done].
  simpl in Hcfg.
  destruct (ToNumber (get json "size")) as [s|]; [|done]. simpl in Hcfg.
  destruct (ToNumber (get json "lines")) as [l|]; [|done]. simpl in Hcfg.
  injection Hcfg as <-. by exists s, l.
Qed.

(** C7, amended: for every raw configuration that normalizes, and whose
    order names nothing that the prototype chain of the mapping supplies,
    the display order is: if the raw [ord] is a list whose normalization is
    not empty, that normalization with the names absent from the category
    mapping filtered out; otherwise (no list, or a list that normalizes to
    the empty list) the key sequence of the category mapping.  Normalizing
    [{cats: {A: [...]}, ord: ["A", "B"]}] yields the display order [["A"]]. *)
Theorem displayOrder_of_normalized {rt : Runtime} (json : value) (cfg : Config.t) :
  normalizeConfig json = Ok cfg →
  Forall (λ n, inherits (Config.cats cfg) n = false) (Config.ord cfg) →
  displayOrder_amended json (Config.cats cfg) = Ok (displayOrder cfg) ∧
  displayOrder <$> normalizeConfig ordered_config = Ok ["A"].
Proof.
  intros (s & l & Hord & _)%normalizeConfig_Ok Hplain. split; [|done].
  unfold displayOrder_amended, displayOrder.
  destruct cfg as [cats size lines ord]. simpl in *.
  assert (Hfilter : filter (λ n, truthy_property (cats_get cats n)) ord
                    = filter (λ n, n ∈ keys cats) ord).
  { apply filter_agree. eapply Forall_impl; [exact Hplain|].
    intros n Hn. unfold inherits in Hn. split.
    - intros Htruthy. destruct (decide (n ∈ keys cats)) as [|Hnot]; [done|].
      rewrite bool_decide_eq_true_2 in Hn by done.
      simpl in Hn. by rewrite Hn in Htruthy.
    - intros Hin. by rewrite cats_get_own. }
  destruct (isArr (get json "ord")).
  - rewrite Hord. simpl. destruct ord as [|n ord]; simpl.
    + by rewrite filter_keys.
    + by rewrite Hfilter.
  - injection Hord as <-. f_equal.
    destruct (keys cats) eqn:Hkeys; simpl; [done|].
    by rewrite <- Hkeys, filter_keys.
Qed.

Lemma displayOrder_of_normalized_witness :
  displayOrder_amended (rt := decimal_runtime) ordered_config
    (plain_cats [("A", animals)])
  = Ok (displayOrder
          (Config.make (plain_cats [("A", animals)])
             (number_of_nat 4) (number_of_nat 3) ["A"; "B"])) ∧
  displayOrder <$> normalizeConfig (rt := decimal_runtime) ordered_config
  = Ok ["A"].
Proof.
  apply (displayOrder_of_normalized (rt := decimal_runtime) ordered_config
           (Config.make (plain_cats [("A", animals)])
              (number_of_nat 4) (number_of_nat 3) ["A"; "B"])).
  - reflexivity.
  - repeat constructor.
Defined.

(** C7 as worded fails on [{cats: {A: []}, ord: []}]: the order is a list,
    its normalization is empty, and the display order is the key sequence
    [["A"]], where the wording gives the empty list. *)
Lemma displayOrder_spec_counterexample :
  normalizeConfig (rt := decimal_runtime) empty_ord_config
  = Ok (Config.make (plain_cats [("A", [])])
          (number_of_nat 4) (number_of_nat 3) []) ∧
  displayOrder (Config.make (plain_cats [("A", [])])
                  (number_of_nat 4) (number_of_nat 3) [])
  = ["A"] ∧
  displayOrder_spec (rt := decimal_runtime) empty_ord_config
    (plain_cats [("A", [])])
  = Ok [].
Proof. by vm_compute. Qed.

(** A name that the prototype of the mapping supplies passes the filter of
    the display order, category or not. *)
Example displayOrder_inherited_name :
  displayOrder <$> normalizeConfig (rt := decimal_runtime) inherited_ord_config
  = Ok ["A"; "toString"].
Proof. by vm_compute. Qed.

(** C8, amended: for every raw configuration that normalizes, the size and
    lines fields are the number coercions of the raw fields, but for a
    coercion that yields zero or NaN, which the default replaces (4 for
    size, 3 for lines); every other number, the negative ones included, is
    kept. *)
Theorem size_and_lines_defaults {rt : Runtime} (json : value) (cfg : Config.t) :
  normalizeConfig json = Ok cfg →
  ∃ s l,
    ToNumber (get json "size") = Ok s ∧
    ToNumber (get json "lines") = Ok l ∧
    Config.size cfg = default_amended (number_of_nat 4) s ∧
    Config.lines cfg = default_amended (number_of_nat 3) l.
Proof.
  intros (s & l & _ & Hs & Hl & -> & ->)%normalizeConfig_Ok.
  exists s, l. split_and!; [done|done| |].
  - by destruct s as [?|[]| |[] ? ?].
  - by destruct l as [?|[]| |[] ? ?].
Qed.

Lemma size_and_lines_defaults_witness :
  ∃ s l,
    ToNumber (rt := decimal_runtime) (get negative_size_config "size") = Ok s ∧
    ToNumber (rt := decimal_runtime) (get negative_size_config "lines") = Ok l ∧
    number_of_Z (-5) = default_amended (number_of_nat 4) s ∧
    number_of_nat 3 = default_amended (number_of_nat 3) l.
Proof.
  apply (size_and_lines_defaults (rt := decimal_runtime) negative_size_config
           (Config.make empty_cats (number_of_Z (-5)) (number_of_nat 3) [])).
  reflexivity.
Defined.

(** C8 as worded fails on [{size: -5, lines: 0}]: the coercion of the size
    is the number -5, not a positive number, and it is the size of the
    configuration, where the wording gives the default 4. *)
Lemma size_default_counterexample :
  ToNumber (rt := decimal_runtime) (get negative_size_config "size")
  = Ok (number_of_Z (-5)) ∧
  classify (number_of_Z (-5)) = Negative ∧
  Config.size <$> normalizeConfig (rt := decimal_runtime) negative_size_config
  = Ok (number_of_Z (-5)) ∧
  default_spec (number_of_nat 4) (number_of_Z (-5)) = number_of_nat 4.
Proof. by vm_compute. Qed.

(** Fields of other types: a numeral in a string, a one-element list, a
    boolean, and an object, which is no number. *)
Example size_coercions :
  (λ v, Config.size <$> normalizeConfig (rt := decimal_runtime) (VObj [("size", v)]))
    <$> [ VStr " 7 "; VStr "-12"; VArr [VNum (number_of_nat 5)]; VBool true;
          VNull; VStr "seven"; VObj [] ]
  = [ Ok (number_of_nat 7); Ok (number_of_Z (-12)); Ok (number_of_nat 5);
      Ok (number_of_nat 1); Ok (number_of_nat 4); Ok (number_of_nat 4);
      Ok (number_of_nat 4) ].
Proof. by vm_compute. Qed.

(** A category named [__proto__] becomes the prototype of the mapping, not
    a category of it. *)
Example proto_category {rt : Runtime} :
  normalizeConfig
    (VObj [("cats", VObj [("__proto__", VArr [VStr "w"]); ("A", VArr [])])])
  = Ok (Config.make {| own := [("A", [])]; proto := Some ["w"] |}
          (number_of_nat 4) (number_of_nat 3) ["A"]).
Proof. done. Qed.

(** C9, which the code does not meet: [normalizeConfig] throws a
    [TypeError] on [{cats: {A: [{toString: 1}]}}], whose list element has
    no string coercion; and the array [cats] of [{cats: ["x"]}], not a
    mapping, gives the category ["0"] and the display order [["0"]].
    A [cats] that is a string gives the empty mapping and order. *)
Theorem normalizeConfig_throws {rt : Runtime} :
  normalizeConfig toString_config = Throw TypeError ∧
  normalizeConfig array_cats_config
  = Ok (Config.make (plain_cats [("0", [])])
          (number_of_nat 4) (number_of_nat 3) ["0"]) ∧
  normalizeConfig string_cats_config
  = Ok (Config.make (plain_cats [])
          (number_of_nat 4) (number_of_nat 3) []).
Proof. done. Qed.

(** The evaluations above do not depend on the runtime. *)
Lemma empty_ord_any_runtime {rt : Runtime} :
  displayOrder <$> normalizeConfig empty_ord_config = Ok ["A"].
Proof. done. Qed.

Lemma negative_size_any_runtime {rt : Runtime} :
  Config.size <$> normalizeConfig negative_size_config = Ok (number_of_Z (-5)).
Proof. done. Qed.

(** [normalizeConfig] itself does not filter the order. *)
Example normalizeConfig_keeps_ord {rt : Runtime} :
  Config.ord <$> normalizeConfig ordered_config = Ok ["A"; "B"].
Proof. done. Qed.

(** ** Where normalization is total *)

Lemma value_nested_ind (P : value → Prop) :
  P VUndefined → P VNull → (∀ b, P (VBool b)) → (∀ n, P (VNum n)) →
  (∀ s, P (VStr s)) →
  (∀ xs, Forall P xs → P (VArr xs)) →
  (∀ ps, Forall (λ p, P p.2) ps → P (VObj ps)) →
  ∀ v, P v.
Proof.
  intros HU HN HB HNum HS HA HO.
  fix IH 1. intros [| |b|n|s|xs|ps].
  - exact HU.
  - exact HN.
  - apply HB.
  - apply HNum.
  - apply HS.
  - apply HA. induction xs as [|x xs IHxs]; constructor; [apply IH|apply IHxs].
  - apply HO.
    induction ps as [|[k x] ps IHps]; constructor; [apply IH|apply IHps].
Qed.

Section total.
Context {rt : Runtime}.

Lemma ToString_plain (v : value) : plain v = true → ∃ s, ToString v = Ok s.
Proof.
  induction v as [| |b|n|s|xs IH|ps IH] using value_nested_ind; simpl; eauto.
  - induction IH as [|x xs Hx _ IHxs]; simpl; [eauto|].
    intros [Hpx Hpxs]%andb_prop.
    destruct (IHxs Hpxs) as [t Ht].
    assert (Hhead : ∃ s, match x with
                         | VUndefined | VNull => Ok ""
                         | _ => ToString x
                         end = Ok s)
      by (destruct x; eauto).
    destruct Hhead as [s ->]. simpl.
    destruct xs; [eauto|]. rewrite Ht. simpl. eauto.
  - intros [Hown _]%andb_prop. apply negb_true_iff in Hown.
    rewrite Hown. eauto.
Qed.

Lemma S_plain (v : value) : plain v = true → ∃ s, S v = Ok s.
Proof.
  intros Hv. destruct v; try apply (ToString_plain _ Hv); by eexists.
Qed.

Lemma normalizeWords_plain (raw : value) :
  plain raw = true → ∃ ws, normalizeWords raw = Ok ws.
Proof.
  destruct raw as [| | | | |xs|]; simpl; eauto.
  intros Hxs.
  assert (Hstrs : ∃ strs, mapR S xs = Ok strs).
  { induction xs as [|x xs IH]; simpl in *; [eauto|].
    apply andb_prop in Hxs as [Hx Hxs].
    destruct (S_plain x Hx) as [s ->], (IH Hxs) as [strs ->]. simpl. eauto. }
  destruct Hstrs as [strs ->]. simpl. eauto.
Qed.

Lemma ToNumber_plain (v : value) : plain v = true → ∃ n, ToNumber v = Ok n.
Proof.
  intros Hv. destruct v as [| | | | |xs|ps]; simpl; eauto.
  - destruct (ToString_plain (VArr xs) Hv) as [s Hs]. simpl in Hs.
    rewrite Hs. simpl. eauto.
  - simpl in Hv. apply andb_prop in Hv as [Hown _].
    apply negb_true_iff in Hown. rewrite Hown. eauto.
Qed.

Lemma plain_lookup (xs : list value) (i : nat) (x : value) :
  forallb plain xs = true → xs !! i = Some x → plain x = true.
Proof.
  rewrite forallb_forall. intros Hxs Hi. apply Hxs, list_elem_of_In.
  by eapply list_elem_of_lookup_2.
Qed.

Lemma get_plain (v : value) (k : string) :
  plain v = true → plain (get v k) = true.
Proof.
  destruct v as [| | | | |xs|ps]; simpl; try done.
  - intros Hxs. unfold at_index.
    destruct (find _ _) as [i|]; simpl; [|done].
    destruct (xs !! i) as [x|] eqn:Hi; simpl; [|done].
    by eapply plain_lookup.
  - intros [_ Hps]%andb_prop.
    induction ps as [|[k' x] ps IH]; simpl in *; [done|].
    apply andb_prop in Hps as [Hx Hps].
    destruct (decide (k = k')); simpl; auto.
Qed.

Lemma foldR_total {A B} (f : B → A → Res B) (xs : list A) (b : B) :
  (∀ b x, ∃ b', f b x = Ok b') → ∃ b', foldR f b xs = Ok b'.
Proof.
  intros Hf. revert b. induction xs as [|x xs IH]; intros b; simpl; [eauto|].
  destruct (Hf b x) as [b' ->]. simpl. apply IH.
Qed.

(** X1: on every decoded value none of whose objects has an own property
    [toString], [normalizeConfig] returns a configuration. *)
Theorem normalizeConfig_total (json : value) :
  plain json = true → ∃ cfg, normalizeConfig json = Ok cfg.
Proof.
  intros Hjson. unfold normalizeConfig.
  set (rawCats := if truthy (get json "cats") && typeof_object (get json "cats")
                  then get json "cats" else VObj []).
  assert (Hraw : plain rawCats = true).
  { unfold rawCats. destruct (_ && _); [by apply get_plain|done]. }
  destruct (foldR_total
              (λ cats k, k' ← S (VStr k);
                         ws ← normalizeWords (get rawCats k);
                         Ok (cats_set k' ws cats))
              (Object_keys rawCats) empty_cats) as [cats ->].
  { intros b k. simpl.
    destruct (normalizeWords_plain (get rawCats k)) as [ws ->];
      [by apply get_plain|]. simpl. eauto. }
  simpl.
  assert (Hord : ∃ ord, (if isArr (get json "ord")
                         then normalizeWords (get json "ord")
                         else Ok (keys cats)) = Ok ord).
  { destruct (isArr _); [|eauto].
    apply normalizeWords_plain. by apply get_plain. }
  destruct Hord as [ord ->]. simpl.
  destruct (ToNumber_plain (get json "size")) as [s ->]; [by apply get_plain|].
  destruct (ToNumber_plain (get json "lines")) as [l ->]; [by apply get_plain|].
  simpl. eauto.
Qed.

(** X2: when the raw [cats] is neither an object nor an array, and the raw
    [ord] is no list, a configuration that [normalizeConfig] returns has
    the empty category mapping and the empty order. *)
Theorem normalizeConfig_without_cats (json : value) (cfg : Config.t) :
  typeof_object (get json "cats") = false ∨ truthy (get json "cats") = false →
  isArr (get json "ord") = false →
  normalizeConfig json = Ok cfg →
  Config.cats cfg = empty_cats ∧ Config.ord cfg = [] ∧ displayOrder cfg = [].
Proof.
  intros Hcats Hord. unfold normalizeConfig.
  assert (truthy (get json "cats") && typeof_object (get json "cats") = false)
    as -> by (destruct Hcats as [-> | ->]; [apply andb_false_r|done]).
  rewrite Hord. simpl.
  destruct (ToNumber (get json "size")) as [s|]; [|done]. simpl.
  destruct (ToNumber (get json "lines")) as [l|]; [|done]. simpl.
  by intros [= <-].
Qed.

End total.

Lemma normalizeConfig_total_witness :
  ∃ cfg, normalizeConfig (rt := decimal_runtime) ordered_config = Ok cfg.
Proof.
  apply (normalizeConfig_total (rt := decimal_runtime) ordered_config).
  reflexivity.
Defined.

Lemma normalizeConfig_without_cats_witness :
  Config.cats (Config.make empty_cats (number_of_nat 4) (number_of_nat 3) [])
  = empty_cats ∧
  Config.ord (Config.make empty_cats (number_of_nat 4) (number_of_nat 3) [])
  = [] ∧
  displayOrder (Config.make empty_cats (number_of_nat 4) (number_of_nat 3) [])
  = [].
Proof.
  apply (normalizeConfig_without_cats (rt := decimal_runtime) string_cats_config).
  - by left.
  - reflexivity.
  - reflexivity.
Defined.

(** ** A game *)

(** X3: the configuration with the one category Animals of 16 words
    normalizes; a card of that category is generated, whatever the random
    source, with 16 distinct cells drawn from the words; and with three
    full rows marked, whichever they are, 3 lines are completed and the
    game is won. *)
Theorem animals_game {rt : Runtime} (g : rng) :
  normalizeConfig animals_config
  = Ok (Config.make (plain_cats [("Animals", animals)])
          (number_of_nat 4) (number_of_nat 3) ["Animals"]) ∧
  (∃ grid g',
     generateCard (VArr (VStr <$> animals)) g = Ok (grid, g') ∧
     length (concat grid) = 16 ∧ NoDup (concat grid) ∧
     concat grid ⊆+ animals) ∧
  (λ r, bingo <$> countCompletedLines (three_rows r)) <$> [0; 1; 2; 3]
  = [Ok true; Ok true; Ok true; Ok true] ∧
  countCompletedLines <$> (three_rows <$> [0; 1; 2; 3])
  = [Ok 3; Ok 3; Ok 3; Ok 3].
Proof.
  split; [done|]. split; [|done].
  destruct (generateCard_grid (VArr (VStr <$> animals)) animals g
              (normalizeWords_words animals animals_words))
    as (grid & Hgen & Hcells & _); [simpl; lia|].
  exists grid, (shuffle animals g).2.
  pose proof (shuffle_Permutation animals g) as Hperm.
  assert (Hnodup : NoDup animals)
    by (apply NoDup_ListNoDup; repeat constructor; simpl; intuition discriminate).
  split_and!; [done| | |].
  - rewrite Hcells, length_take, (Permutation_length Hperm). reflexivity.
  - rewrite Hcells. eapply sublist_NoDup; [|apply sublist_take].
    by rewrite Hperm.
  - rewrite Hcells. etrans; [apply submseteq_take|].
    by apply Permutation_submseteq.
Qed.
